(** * Users CRUD service: the in-memory store and its five handlers

    A shallow embedding of [routers/api.py] (the same handlers appear in
    [main.py]) together with the two module-level variables they work on,
    [users] and [next_id].

    Modelling choices, all read off the source:
    - Python [int] is unbounded: ids are [Z].
    - [users] is a Python [dict]; iteration follows insertion order, an
      assignment to a key that is present keeps the key's position and
      [del] removes the entry.  The dict is an association list with
      exactly these three behaviours ([PyDict]).
    - A handler reads and writes the module-level state and may raise
      [HTTPException].  Handlers are computations in a state monad with
      errors, [handler A]; an error keeps whatever state the handler had
      reached when it raised, so that "no partial mutation" is a property
      of the handlers and not of the monad.
    - The handlers receive payloads that already went through the pydantic
      layer; [User(...)] on such values is record construction.  A pydantic
      model instance is truthy, so [if not user] tests for [None]. *)

From Stdlib Require Import ZArith String List Bool Lia Sorted.
Import ListNotations.
Open Scope string_scope.
Open Scope list_scope.
Open Scope Z_scope.

Set Implicit Arguments.

(** ** Insertion-ordered dictionaries keyed by integers *)

Module PyDict.
Section Dict.
Variable V : Type.

Definition t := list (Z * V).

Definition empty : t := [].

(** [d.get(k)] *)
Fixpoint get (k : Z) (d : t) : option V :=
  match d with
  | [] => None
  | (k', v) :: d' => if k' =? k then Some v else get k d'
  end.

(** [k in d] *)
Definition contains (k : Z) (d : t) : bool :=
  match get k d with Some _ => true | None => false end.

(** [d[k] = v]: overwrite in place when [k] is present, append otherwise *)
Fixpoint set (k : Z) (v : V) (d : t) : t :=
  match d with
  | [] => [(k, v)]
  | (k', v') :: d' =>
      if k' =? k then (k, v) :: d' else (k', v') :: set k v d'
  end.

(** [del d[k]] *)
Fixpoint del (k : Z) (d : t) : t :=
  match d with
  | [] => []
  | (k', v') :: d' => if k' =? k then d' else (k', v') :: del k d'
  end.

(** [d.keys()] and [d.values()], in iteration order *)
Definition keys (d : t) : list Z := map fst d.
Definition values (d : t) : list V := map snd d.
End Dict.
End PyDict.

(** ** Schemas ([schemas.py]) *)

Record User := mkUser { id : Z; name : string; email : string }.

Record UserCreate := mkUserCreate
  { create_name : string; create_email : string }.

(** Both fields default to [None]. *)
Record UserUpdate := mkUserUpdate
  { update_name : option string; update_email : option string }.

Record HTTPException := mkHTTPException
  { status_code : Z; detail : string }.

(** The two domain errors, as the handlers raise them. *)
Definition NotFound : HTTPException := mkHTTPException 404 "User not found".
Definition DuplicateEmail : HTTPException :=
  mkHTTPException 400 "Email already exists".

(** ** The in-memory database: [users] and [next_id] *)

Record Database := mkDatabase
  { users : PyDict.t User; next_id : Z }.

(** Modelled from the spec: the module [database], from which
    [routers/api.py] imports [users] and [next_id], is not among the
    sources.  The spec has the store start empty with the counter at 1;
    [main.py] declares the same ([users = {}], [next_id = 1]) and the test
    fixture resets to it. *)
Definition init_db : Database := mkDatabase (PyDict.empty User) 1.

(** ** Handlers as stateful computations that may raise *)

Inductive result (A : Type) : Type :=
| Ok (a : A)
| Raise (e : HTTPException).
Arguments Ok {A} a.
Arguments Raise {A} e.

Definition handler (A : Type) : Type := Database -> result A * Database.

Definition ret {A} (a : A) : handler A := fun db => (Ok a, db).

Definition raise {A} (e : HTTPException) : handler A :=
  fun db => (Raise e, db).

Definition bind {A B} (m : handler A) (k : A -> handler B) : handler B :=
  fun db =>
    match m db with
    | (Ok a, db') => k a db'
    | (Raise e, db') => (Raise e, db')
    end.

Declare Scope handler_scope.
Delimit Scope handler_scope with handler.
Notation "x <- m ;; k" := (bind m (fun x => k))
  (at level 61, m at next level, right associativity) : handler_scope.
Notation "m ;; k" := (bind m (fun _ => k))
  (at level 61, right associativity) : handler_scope.
Open Scope handler_scope.

(** Reads and writes of the two module-level variables. *)
Definition read_users : handler (PyDict.t User) :=
  fun db => (Ok (users db), db).
Definition read_next_id : handler Z :=
  fun db => (Ok (next_id db), db).
(** [users[k] = u] *)
Definition users_setitem (k : Z) (u : User) : handler unit :=
  fun db => (Ok tt, mkDatabase (PyDict.set k u (users db)) (next_id db)).
(** [del users[k]] *)
Definition users_delitem (k : Z) : handler unit :=
  fun db => (Ok tt, mkDatabase (PyDict.del k (users db)) (next_id db)).
(** [database.next_id = n] *)
Definition write_next_id (n : Z) : handler unit :=
  fun db => (Ok tt, mkDatabase (users db) n).

(** [any(u.email == e for u in d.values())] *)
Definition email_taken (e : string) (d : PyDict.t User) : bool :=
  existsb (fun u => String.eqb (email u) e) (PyDict.values d).

(** ** The five handlers ([routers/api.py]) *)

Definition create_user (payload : UserCreate) : handler User :=
  us <- read_users ;;
  if email_taken (create_email payload) us then raise DuplicateEmail
  else
    n <- read_next_id ;;
    let user := mkUser n (create_name payload) (create_email payload) in
    users_setitem n user ;;
    n' <- read_next_id ;;
    write_next_id (n' + 1) ;;
    ret user.

Definition list_users : handler (list User) :=
  us <- read_users ;;
  ret (PyDict.values us).

Definition get_user (user_id : Z) : handler User :=
  us <- read_users ;;
  match PyDict.get user_id us with
  | None => raise NotFound
  | Some user => ret user
  end.

Definition update_user (user_id : Z) (payload : UserUpdate) : handler User :=
  us <- read_users ;;
  match PyDict.get user_id us with
  | None => raise NotFound
  | Some user =>
      let new_name :=
        match update_name payload with Some n => n | None => name user end in
      let new_email :=
        match update_email payload with Some e => e | None => email user end in
      us' <- read_users ;;
      if negb (String.eqb new_email (email user)) && email_taken new_email us'
      then raise DuplicateEmail
      else
        let updated := mkUser user_id new_name new_email in
        users_setitem user_id updated ;;
        ret updated
  end.

Definition delete_user (user_id : Z) : handler unit :=
  us <- read_users ;;
  if negb (PyDict.contains user_id us) then raise NotFound
  else
    users_delitem user_id ;;
    ret tt.

(** ** Requests against the service, and runs of requests *)

Inductive Op : Type :=
| Create (payload : UserCreate)
| ListAll
| Get (user_id : Z)
| Update (user_id : Z) (payload : UserUpdate)
| Delete (user_id : Z).

Inductive Reply : Type :=
| RUser (u : User)
| RUsers (l : list User)
| RNone.

Definition run_op (op : Op) : handler Reply :=
  match op with
  | Create p => u <- create_user p ;; ret (RUser u)
  | ListAll => l <- list_users ;; ret (RUsers l)
  | Get i => u <- get_user i ;; ret (RUser u)
  | Update i p => u <- update_user i p ;; ret (RUser u)
  | Delete i => delete_user i ;; ret RNone
  end.

(** The status code of the route decorators: 201 for POST, 204 for DELETE,
    200 otherwise; a raised [HTTPException] carries its own. *)
Definition success_status (op : Op) : Z :=
  match op with
  | Create _ => 201
  | Delete _ => 204
  | _ => 200
  end.

Definition http_status (op : Op) (r : result Reply) : Z :=
  match r with
  | Ok _ => success_status op
  | Raise e => status_code e
  end.

(** The state after a sequence of requests, and what each one answered. *)
Fixpoint exec (ops : list Op) (db : Database) : Database :=
  match ops with
  | [] => db
  | op :: ops' => exec ops' (snd (run_op op db))
  end.

Fixpoint trace (ops : list Op) (db : Database) : list (Op * result Reply) :=
  match ops with
  | [] => []
  | op :: ops' => (op, fst (run_op op db)) :: trace ops' (snd (run_op op db))
  end.

(** The ids handed out by the successful creates of a trace, in order. *)
Definition assigned_id (x : Op * result Reply) : option Z :=
  match x with
  | (Create _, Ok (RUser u)) => Some (id u)
  | _ => None
  end.

Fixpoint assigned_ids (tr : list (Op * result Reply)) : list Z :=
  match tr with
  | [] => []
  | x :: tr' =>
      match assigned_id x with
      | Some i => i :: assigned_ids tr'
      | None => assigned_ids tr'
      end
  end.

(** [a; a+1; ...; a+n-1] *)
Fixpoint ids_from (a : Z) (n : nat) : list Z :=
  match n with
  | O => []
  | S n' => a :: ids_from (a + 1) n'
  end.

Inductive reachable : Database -> Prop :=
| reachable_init : reachable init_db
| reachable_step op db : reachable db -> reachable (snd (run_op op db)).

(** A record is live when [users] holds it under its id. *)
Definition live (u : User) (db : Database) : Prop :=
  PyDict.get (id u) (users db) = Some u.

Definition emails (db : Database) : list string :=
  map email (PyDict.values (users db)).

(** The store invariant: the counter is ahead of every key, keys appear in
    increasing order, each record sits under its own id, and no email
    occurs twice. *)
Record wf (db : Database) : Prop := mkWf
  { wf_next : 1 <= next_id db;
    wf_bound : Forall (fun k => 1 <= k < next_id db) (PyDict.keys (users db));
    wf_sorted : StronglySorted Z.lt (PyDict.keys (users db));
    wf_ids : Forall (fun kv => id (snd kv) = fst kv) (users db);
    wf_emails : NoDup (emails db) }.

(** [fold_right Z.max 0 l]: the largest id of [l], 0 when there is none. *)
Definition max_id (l : list Z) : Z := fold_right Z.max 0 l.

(** The name and email an update resolves to: the payload's field when
    it is present, the stored one otherwise. *)
Definition resolved_name (p : UserUpdate) (u : User) : string :=
  match update_name p with Some n => n | None => name u end.
Definition resolved_email (p : UserUpdate) (u : User) : string :=
  match update_email p with Some e => e | None => email u end.


(** [user_id: int = Path(..., ge=1)] on the three routes that take an id. *)
Definition path_ok (op : Op) : bool :=
  match op with
  | Get i | Update i _ | Delete i => 1 <=? i
  | _ => true
  end.

(** A route as the framework serves it: a path parameter that breaks its
    constraint is answered 422 and the handler is not called. *)
Definition serve (op : Op) (db : Database) : Z * Database :=
  if path_ok op
  then (http_status op (fst (run_op op db)), snd (run_op op db))
  else (422, db).

(** The two routes whose handlers only read [users]. *)
Definition is_read (op : Op) : bool :=
  match op with
  | ListAll | Get _ => true
  | _ => false
  end.

(** A DELETE that was answered 204. *)
Definition deleted (x : Op * result Reply) : bool :=
  match x with
  | (Delete _, Ok _) => true
  | _ => false
  end.

(** A request that was not answered with an error. *)
Definition answered_ok (x : Op * result Reply) : bool :=
  match snd x with
  | Ok _ => true
  | Raise _ => false
  end.

(** ** Scenarios from the test-suite *)

Definition ivan := mkUserCreate "Ivan" "ivan@example.com".
Definition anna := mkUserCreate "Anna" "anna@example.com".

Example crud_flow :
  map (fun x => http_status (fst x) (snd x))
      (trace [Create ivan; ListAll; Get 1;
              Update 1 (mkUserUpdate (Some "Ivan Petrov") None);
              Delete 1; Get 1] init_db)
  = [201; 200; 200; 200; 204; 404].
Proof. reflexivity. Qed.

Example create_first :
  create_user ivan init_db
  = (Ok (mkUser 1 "Ivan" "ivan@example.com"),
     mkDatabase [(1, mkUser 1 "Ivan" "ivan@example.com")] 2).
Proof. reflexivity. Qed.

Example update_to_existing_email :
  fst (update_user 2 (mkUserUpdate None (Some "ivan@example.com"))
         (exec [Create ivan; Create anna] init_db))
  = Raise DuplicateEmail.
Proof. reflexivity. Qed.

Example not_found_999 :
  fst (get_user 999 init_db) = Raise NotFound
  /\ fst (update_user 999 (mkUserUpdate (Some "X") None) init_db) = Raise NotFound
  /\ fst (delete_user 999 init_db) = Raise NotFound.
Proof. repeat split. Qed.

(** Emails that differ only in letter case are different emails. *)
Example emails_case_sensitive :
  emails (exec [Create ivan; Create (mkUserCreate "Ivan" "Ivan@example.com")]
            init_db)
  = ["ivan@example.com"; "Ivan@example.com"].
Proof. reflexivity. Qed.

(** ** Facts about insertion-ordered dictionaries *)

Unset Implicit Arguments.

Section DictFacts.
Context {V : Type}.
Implicit Types (d l : PyDict.t V) (k : Z) (v : V).

Lemma get_none_keys k d : PyDict.get k d = None <-> ~ In k (PyDict.keys d).
Proof.
  induction d as [|[k' v'] d IH]; simpl.
  - tauto.
  - destruct (Z.eqb_spec k' k); [split; [discriminate | tauto] |].
    rewrite IH. tauto.
Qed.

Lemma get_some_in k v d : PyDict.get k d = Some v -> In (k, v) d.
Proof.
  induction d as [|[k' v'] d IH]; simpl; [discriminate |].
  destruct (Z.eqb_spec k' k); intros H.
  - injection H as ->. subst. now left.
  - right. auto.
Qed.

(** A key that is present splits the dictionary around its entry. *)
Lemma get_some_split k v d :
  PyDict.get k d = Some v ->
  exists l1 l2, d = l1 ++ (k, v) :: l2 /\ ~ In k (PyDict.keys l1).
Proof.
  induction d as [|[k' v'] d IH]; simpl; [discriminate |].
  destruct (Z.eqb_spec k' k); intros H.
  - injection H as ->. subst. exists [], d. split; [reflexivity | simpl; tauto].
  - destruct (IH H) as (l1 & l2 & -> & Hn).
    exists ((k', v') :: l1), l2. split; [reflexivity |].
    simpl. intros [E | E]; [congruence | tauto].
Qed.

(** Assignment to a new key appends. *)
Lemma set_fresh k v d :
  ~ In k (PyDict.keys d) -> PyDict.set k v d = d ++ [(k, v)].
Proof.
  induction d as [|[k' v'] d IH]; simpl; [reflexivity |].
  intros Hn. destruct (Z.eqb_spec k' k); [tauto |].
  rewrite IH by tauto. reflexivity.
Qed.

(** Assignment to a present key overwrites where the key stands. *)
Lemma set_at k v v0 l1 l2 :
  ~ In k (PyDict.keys l1) ->
  PyDict.set k v (l1 ++ (k, v0) :: l2) = l1 ++ (k, v) :: l2.
Proof.
  induction l1 as [|[k' v'] l1 IH]; simpl; intros Hn.
  - now rewrite Z.eqb_refl.
  - destruct (Z.eqb_spec k' k); [tauto |]. rewrite IH by tauto. reflexivity.
Qed.

Lemma del_at k v0 l1 l2 :
  ~ In k (PyDict.keys l1) ->
  PyDict.del k (l1 ++ (k, v0) :: l2) = l1 ++ l2.
Proof.
  induction l1 as [|[k' v'] l1 IH]; simpl; intros Hn.
  - now rewrite Z.eqb_refl.
  - destruct (Z.eqb_spec k' k); [tauto |]. rewrite IH by tauto. reflexivity.
Qed.

Lemma get_set_same k v d : PyDict.get k (PyDict.set k v d) = Some v.
Proof.
  induction d as [|[k' v'] d IH]; simpl.
  - now rewrite Z.eqb_refl.
  - destruct (Z.eqb_spec k' k) as [->|Hne]; simpl.
    + now rewrite Z.eqb_refl.
    + destruct (Z.eqb_spec k' k); [contradiction | exact IH].
Qed.

Lemma get_set_other k k' v d :
  k' <> k -> PyDict.get k' (PyDict.set k v d) = PyDict.get k' d.
Proof.
  intros Hne. induction d as [|[k0 v0] d IH]; simpl.
  - destruct (Z.eqb_spec k k'); [congruence | reflexivity].
  - destruct (Z.eqb_spec k0 k) as [->|H0]; simpl.
    + destruct (Z.eqb_spec k k'); [congruence | reflexivity].
    + destruct (Z.eqb_spec k0 k'); [reflexivity | exact IH].
Qed.

Lemma keys_app l1 l2 :
  PyDict.keys (l1 ++ l2) = PyDict.keys l1 ++ PyDict.keys l2.
Proof. apply map_app. Qed.

Lemma values_app l1 l2 :
  PyDict.values (l1 ++ l2) = PyDict.values l1 ++ PyDict.values l2.
Proof. apply map_app. Qed.
End DictFacts.

(** ** List facts used for the store invariant *)

Lemma sorted_snoc (l : list Z) (n : Z) :
  StronglySorted Z.lt l -> Forall (fun k => k < n) l ->
  StronglySorted Z.lt (l ++ [n]).
Proof.
  induction 1 as [|a l Hs IH Ha]; intros Hb; simpl.
  - repeat constructor.
  - inversion Hb; subst. constructor; [auto |].
    apply Forall_app. split; [assumption | now constructor].
Qed.

Lemma sorted_drop_middle (l1 l2 : list Z) (k : Z) :
  StronglySorted Z.lt (l1 ++ k :: l2) -> StronglySorted Z.lt (l1 ++ l2).
Proof.
  induction l1 as [|a l1 IH]; simpl; intros H; inversion H; subst.
  - assumption.
  - constructor; [auto |].
    match goal with F : Forall _ (_ ++ _ :: _) |- _ =>
      apply Forall_app in F; destruct F as [F1 F2]; inversion F2; subst end.
    apply Forall_app. now split.
Qed.

Lemma sorted_lt_NoDup (l : list Z) : StronglySorted Z.lt l -> NoDup l.
Proof.
  induction 1 as [|a l Hs IH Ha]; constructor; [| assumption].
  intros Hin. rewrite Forall_forall in Ha. specialize (Ha _ Hin). lia.
Qed.

Lemma NoDup_replace_middle {A : Type} (l1 l2 : list A) (a b : A) :
  NoDup (l1 ++ a :: l2) -> ~ In b (l1 ++ l2) -> NoDup (l1 ++ b :: l2).
Proof.
  induction l1 as [|c l1 IH]; simpl; intros Hnd Hb.
  - inversion Hnd; subst. now constructor.
  - inversion Hnd as [|? ? Hc Hnd']; subst. constructor.
    + rewrite in_app_iff in *. simpl in *. intuition congruence.
    + apply IH; tauto.
Qed.

Lemma NoDup_snoc {A : Type} (l : list A) (a : A) :
  NoDup l -> ~ In a l -> NoDup (l ++ [a]).
Proof.
  induction 1 as [|b l Hb Hnd IH]; simpl; intros Ha.
  - repeat constructor. tauto.
  - constructor; [| apply IH; tauto].
    rewrite in_app_iff. simpl. intuition congruence.
Qed.

Lemma email_taken_in (e : string) (d : PyDict.t User) :
  email_taken e d = true <-> In e (map email (PyDict.values d)).
Proof.
  unfold email_taken. rewrite existsb_exists, in_map_iff.
  split; intros (u & H1 & H2); exists u.
  - apply String.eqb_eq in H2. tauto.
  - subst. split; [assumption | apply String.eqb_refl].
Qed.

Lemma email_taken_not_in (e : string) (d : PyDict.t User) :
  email_taken e d = false <-> ~ In e (map email (PyDict.values d)).
Proof.
  rewrite <- email_taken_in. destruct (email_taken e d); split; congruence.
Qed.

(** ** What each handler computes *)

Lemma create_user_dup p db :
  email_taken (create_email p) (users db) = true ->
  create_user p db = (Raise DuplicateEmail, db).
Proof. intros H. unfold create_user, bind, read_users. now rewrite H. Qed.

Lemma create_user_ok p db :
  email_taken (create_email p) (users db) = false ->
  let u := mkUser (next_id db) (create_name p) (create_email p) in
  create_user p db
  = (Ok u, mkDatabase (PyDict.set (next_id db) u (users db)) (next_id db + 1)).
Proof. intros H. unfold create_user, bind, read_users. now rewrite H. Qed.

Lemma list_users_eq db : list_users db = (Ok (PyDict.values (users db)), db).
Proof. reflexivity. Qed.

Lemma get_user_eq i db :
  get_user i db
  = (match PyDict.get i (users db) with
     | Some u => Ok u
     | None => Raise NotFound
     end, db).
Proof.
  unfold get_user, bind, read_users. now destruct (PyDict.get i (users db)).
Qed.

Lemma update_user_missing i p db :
  PyDict.get i (users db) = None -> update_user i p db = (Raise NotFound, db).
Proof. intros H. unfold update_user, bind, read_users. now rewrite H. Qed.

Lemma update_user_live i p db u :
  PyDict.get i (users db) = Some u ->
  update_user i p db
  = if negb (String.eqb (resolved_email p u) (email u))
       && email_taken (resolved_email p u) (users db)
    then (Raise DuplicateEmail, db)
    else let u' := mkUser i (resolved_name p u) (resolved_email p u) in
         (Ok u', mkDatabase (PyDict.set i u' (users db)) (next_id db)).
Proof.
  intros H. unfold update_user, bind, read_users. rewrite H.
  fold (resolved_email p u). fold (resolved_name p u).
  now destruct (negb _ && _).
Qed.

Lemma delete_user_eq i db :
  delete_user i db
  = if PyDict.contains i (users db)
    then (Ok tt, mkDatabase (PyDict.del i (users db)) (next_id db))
    else (Raise NotFound, db).
Proof.
  unfold delete_user, bind, read_users.
  now destruct (PyDict.contains i (users db)).
Qed.

(** ** The store invariant holds in every reachable state *)

Lemma wf_init : wf init_db.
Proof. split; simpl; constructor || lia. Qed.

Lemma wf_fresh db : wf db -> ~ In (next_id db) (PyDict.keys (users db)).
Proof.
  intros H Hin. pose proof (wf_bound H) as Hb.
  rewrite Forall_forall in Hb. specialize (Hb _ Hin). lia.
Qed.

Lemma wf_create p db : wf db -> wf (snd (create_user p db)).
Proof.
  intros H.
  destruct (email_taken (create_email p) (users db)) eqn:Et.
  - now rewrite create_user_dup.
  - rewrite create_user_ok by assumption. simpl.
    rewrite set_fresh by now apply wf_fresh.
    destruct H as [Hn Hb Hs Hi He]. split; unfold emails in *; simpl.
    + lia.
    + rewrite keys_app. apply Forall_app. split.
      * eapply Forall_impl; [| exact Hb]. simpl. intros; lia.
      * constructor; [simpl; lia | constructor].
    + rewrite keys_app. apply sorted_snoc; [assumption |].
      eapply Forall_impl; [| exact Hb]. simpl. intros; lia.
    + apply Forall_app. split; [assumption | now repeat constructor].
    + rewrite values_app, map_app. simpl.
      apply email_taken_not_in in Et.
      now apply NoDup_snoc.
Qed.

Lemma wf_update i p db : wf db -> wf (snd (update_user i p db)).
Proof.
  intros H.
  destruct (PyDict.get i (users db)) as [u|] eqn:Hg.
  2: now rewrite update_user_missing.
  rewrite (update_user_live _ p _ _ Hg).
  destruct (negb _ && _) eqn:Hc; [assumption | simpl].
  destruct (get_some_split _ _ _ Hg) as (l1 & l2 & Hd & Hn).
  destruct H as [Hnx Hb Hs Hi He]. unfold emails in *.
  rewrite Hd in *. rewrite set_at by assumption.
  split; unfold emails; simpl.
  - assumption.
  - now rewrite keys_app in *.
  - now rewrite keys_app in *.
  - apply Forall_app in Hi. destruct Hi as [Hi1 Hi2].
    inversion Hi2; subst. apply Forall_app. split; [assumption |].
    now constructor.
  - rewrite values_app, map_app in *. simpl in *.
    apply andb_false_iff in Hc. destruct Hc as [Hc | Hc].
    + apply negb_false_iff, String.eqb_eq in Hc. now rewrite Hc.
    + apply email_taken_not_in in Hc.
      rewrite values_app, map_app in Hc. simpl in Hc.
      eapply NoDup_replace_middle; [exact He |].
      rewrite in_app_iff in *. simpl in Hc. tauto.
Qed.

Lemma wf_delete i db : wf db -> wf (snd (delete_user i db)).
Proof.
  intros H. rewrite delete_user_eq.
  unfold PyDict.contains.
  destruct (PyDict.get i (users db)) as [u|] eqn:Hg; [simpl | assumption].
  destruct (get_some_split _ _ _ Hg) as (l1 & l2 & Hd & Hn).
  destruct H as [Hnx Hb Hs Hi He]. unfold emails in *.
  rewrite Hd in *. rewrite del_at by assumption.
  split; unfold emails; simpl.
  - assumption.
  - rewrite keys_app in *. simpl in Hb.
    apply Forall_app in Hb. destruct Hb as [Hb1 Hb2]. inversion Hb2; subst.
    apply Forall_app. now split.
  - rewrite keys_app in *. simpl in Hs. now apply sorted_drop_middle in Hs.
  - apply Forall_app in Hi. destruct Hi as [Hi1 Hi2]. inversion Hi2; subst.
    apply Forall_app. now split.
  - rewrite values_app, map_app in *. simpl in He.
    now apply NoDup_remove_1 in He.
Qed.

Lemma wf_run_op op db : wf db -> wf (snd (run_op op db)).
Proof.
  intros H. destruct op as [p | | i | i p | i]; simpl; unfold bind.
  - pose proof (wf_create p _ H) as W.
    destruct (create_user p db) as [[u|e] db']; exact W.
  - exact H.
  - rewrite get_user_eq. now destruct (PyDict.get i (users db)).
  - pose proof (wf_update i p _ H) as W.
    destruct (update_user i p db) as [[u|e] db']; exact W.
  - pose proof (wf_delete i _ H) as W.
    destruct (delete_user i db) as [[u|e] db']; exact W.
Qed.

Lemma reachable_wf db : reachable db -> wf db.
Proof. induction 1; [apply wf_init | now apply wf_run_op]. Qed.

Lemma reachable_exec ops db : reachable db -> reachable (exec ops db).
Proof.
  revert db. induction ops as [|op ops IH]; simpl; intros db H.
  - assumption.
  - apply IH. now constructor.
Qed.

Lemma exec_app ops1 ops2 db :
  exec (ops1 ++ ops2) db = exec ops2 (exec ops1 db).
Proof.
  revert db. induction ops1 as [|op ops1 IH]; simpl; intros db;
    [reflexivity | apply IH].
Qed.

Lemma reachable_is_exec db : reachable db -> exists ops, db = exec ops init_db.
Proof.
  induction 1 as [|op db H (ops & ->)].
  - now exists [].
  - exists (ops ++ [op]). now rewrite exec_app.
Qed.

(** ** The id counter along a run *)

Lemma next_id_step op db :
  match assigned_id (op, fst (run_op op db)) with
  | Some i => i = next_id db /\ next_id (snd (run_op op db)) = next_id db + 1
  | None => next_id (snd (run_op op db)) = next_id db
  end.
Proof.
  destruct op as [p | | i | i p | i]; simpl; unfold bind.
  - destruct (email_taken (create_email p) (users db)) eqn:Et.
    + now rewrite create_user_dup.
    + rewrite create_user_ok by assumption. simpl. split; reflexivity.
  - reflexivity.
  - rewrite get_user_eq. now destruct (PyDict.get i (users db)).
  - destruct (PyDict.get i (users db)) as [u|] eqn:Hg.
    + rewrite (update_user_live _ p _ _ Hg). now destruct (negb _ && _).
    + now rewrite update_user_missing.
  - rewrite delete_user_eq. now destruct (PyDict.contains i (users db)).
Qed.

Lemma assigned_ids_from ops db :
  assigned_ids (trace ops db)
  = ids_from (next_id db) (length (assigned_ids (trace ops db)))
  /\ next_id (exec ops db)
     = next_id db + Z.of_nat (length (assigned_ids (trace ops db))).
Proof.
  revert db. induction ops as [|op ops IH]; intros db.
  - simpl. split; [reflexivity | lia].
  - cbn [trace exec assigned_ids].
    pose proof (next_id_step op db) as Hs.
    destruct (IH (snd (run_op op db))) as [IH1 IH2].
    destruct (assigned_id (op, fst (run_op op db))) as [i|].
    + destruct Hs as [-> Hn]. rewrite Hn in IH1, IH2.
      cbn [length ids_from]. split; [now rewrite <- IH1 | lia].
    + rewrite Hs in IH1, IH2. now split.
Qed.

Lemma ids_from_split a n pre x post :
  ids_from a n = pre ++ x :: post ->
  pre = ids_from a (length pre) /\ x = a + Z.of_nat (length pre).
Proof.
  revert a n. induction pre as [|y pre IH]; intros a [|n]; simpl;
    try discriminate; intros H; injection H as -> H.
  - split; [reflexivity | lia].
  - destruct (IH _ _ H) as [<- ->]. split; [reflexivity | lia].
Qed.

Lemma max_id_ids_from a n :
  0 <= a -> max_id (ids_from a (S n)) = a + Z.of_nat n.
Proof.
  revert a. induction n as [|n IH]; intros a Ha.
  - simpl. lia.
  - change (max_id (ids_from a (S (S n))))
      with (Z.max a (max_id (ids_from (a + 1) (S n)))).
    rewrite IH by lia. lia.
Qed.

Lemma ids_from_sorted a n : StronglySorted Z.lt (ids_from a n).
Proof.
  revert a. induction n as [|n IH]; intros a; simpl; constructor; [apply IH |].
  assert (G : forall m b, a < b -> Forall (Z.lt a) (ids_from b m)).
  { induction m as [|m IHm]; intros b Hb; simpl; constructor;
      [assumption | apply IHm; lia]. }
  apply G. lia.
Qed.

(** C2: the ids handed out by the successful creates of any run from the
    empty store are 1, 2, 3, ... in that order.  Hence they are strictly
    increasing, none is handed out twice (whatever was deleted in
    between), the first is 1 and each one is the largest id handed out so
    far plus 1. *)
Theorem assigned_ids_monotone (ops : list Op) :
  let ids := assigned_ids (trace ops init_db) in
  ids = ids_from 1 (length ids)
  /\ StronglySorted Z.lt ids
  /\ NoDup ids
  /\ (forall pre x post, ids = pre ++ x :: post -> x = max_id pre + 1).
Proof.
  intros ids. destruct (assigned_ids_from ops init_db) as [H _].
  change (next_id init_db) with 1 in H. fold ids in H.
  assert (Hs : StronglySorted Z.lt ids) by (rewrite H; apply ids_from_sorted).
  repeat split; [exact H | exact Hs | now apply sorted_lt_NoDup |].
  intros pre x post E. rewrite E in H at 1. symmetry in H.
  apply ids_from_split in H. destruct H as [Hp Hx].
  remember (length pre) as m eqn:Hm. clear Hm. subst x pre.
  destruct m as [|m].
  - reflexivity.
  - rewrite max_id_ids_from by lia. lia.
Qed.

(** Deleting a record does not free its id. *)
Example id_not_reused_after_delete :
  assigned_ids (trace [Create ivan; Delete 1; Create ivan] init_db) = [1; 2].
Proof. reflexivity. Qed.

Lemma assigned_ids_monotone_witness :
  assigned_ids (trace [Create ivan; Delete 1; Create anna] init_db)
    = [1] ++ 2 :: []
  /\ 2 = max_id [1] + 1.
Proof.
  split; [reflexivity |].
  exact (proj2 (proj2 (proj2
           (assigned_ids_monotone [Create ivan; Delete 1; Create anna])))
           [1] 2 [] eq_refl).
Defined.

(** ** Email uniqueness *)

Lemma live_in_values u db : live u db -> In u (PyDict.values (users db)).
Proof.
  intros H. apply get_some_in in H.
  apply (in_map snd) in H. exact H.
Qed.

Lemma NoDup_map_eq {A B : Type} (f : A -> B) (l : list A) (x y : A) :
  NoDup (map f l) -> In x l -> In y l -> f x = f y -> x = y.
Proof.
  induction l as [|a l IH]; simpl; [tauto |].
  intros Hnd Hx Hy E. inversion Hnd as [|? ? Ha Hl]; subst.
  destruct Hx as [-> | Hx], Hy as [-> | Hy]; auto.
  - exfalso. apply Ha. rewrite E. now apply in_map.
  - exfalso. apply Ha. rewrite <- E. now apply in_map.
Qed.

(** C1: in every state reachable from the empty store, the emails of the
    stored records are pairwise different as strings: the list of emails
    has no repetition, and two live records with equal emails are one and
    the same record. *)
Theorem email_unique (db : Database) :
  reachable db ->
  NoDup (emails db)
  /\ (forall u v, live u db -> live v db -> email u = email v -> u = v).
Proof.
  intros H. apply reachable_wf in H. pose proof (wf_emails H) as Hnd.
  split; [exact Hnd |].
  intros u v Hu Hv E.
  eapply NoDup_map_eq; eauto using live_in_values.
Qed.

Lemma email_unique_witness :
  NoDup (emails (exec [Create ivan; Create anna; Create ivan; Delete 1;
                       Update 2 (mkUserUpdate None (Some "ivan@example.com"))]
                   init_db)).
Proof.
  apply email_unique. apply reachable_exec. apply reachable_init.
Defined.

(** ** Create *)

Lemma email_taken_set k u d :
  email_taken (email u) (PyDict.set k u d) = true.
Proof.
  apply email_taken_in. apply in_map.
  apply (in_map snd) with (x := (k, u)).
  apply get_some_in. apply get_set_same.
Qed.

Lemma create_user_inv p db u db' :
  create_user p db = (Ok u, db') ->
  email_taken (create_email p) (users db) = false
  /\ u = mkUser (next_id db) (create_name p) (create_email p)
  /\ db' = mkDatabase (PyDict.set (next_id db) u (users db)) (next_id db + 1).
Proof.
  destruct (email_taken (create_email p) (users db)) eqn:Et.
  - rewrite create_user_dup by assumption. discriminate.
  - rewrite create_user_ok by assumption. simpl. intros H.
    injection H as <- <-. auto.
Qed.

Lemma get_after_create p db u db' :
  create_user p db = (Ok u, db') -> get_user (id u) db' = (Ok u, db').
Proof.
  intros H. apply create_user_inv in H. destruct H as (_ & Hu & ->).
  rewrite get_user_eq. simpl users.
  replace (id u) with (next_id db) by (subst u; reflexivity).
  now rewrite get_set_same.
Qed.

(** C8: when [create_user] returns a record [u], [get_user] on [u]'s id in
    the resulting state returns [u].  This needs nothing of the payload,
    so it holds in particular for every payload the validation layer
    lets through. *)
Theorem create_then_get (p : UserCreate) (db db' : Database) (u : User) :
  create_user p db = (Ok u, db') ->
  get_user (id u) db' = (Ok u, db').
Proof. apply get_after_create. Qed.

Lemma create_then_get_witness :
  get_user 1 (snd (create_user ivan init_db))
  = (Ok (mkUser 1 "Ivan" "ivan@example.com"), snd (create_user ivan init_db)).
Proof.
  exact (create_then_get ivan init_db (snd (create_user ivan init_db))
           (mkUser 1 "Ivan" "ivan@example.com") eq_refl).
Defined.

(** C3: after a successful create with email [e], a create with the same
    email and any name raises [HTTPException(400, "Email already exists")],
    changes nothing, and the first record is still returned by [get_user]
    exactly as it was created. *)
Theorem create_same_email_rejected
    (n1 n2 e : string) (db db' : Database) (u : User) :
  create_user (mkUserCreate n1 e) db = (Ok u, db') ->
  create_user (mkUserCreate n2 e) db' = (Raise DuplicateEmail, db')
  /\ http_status (Create (mkUserCreate n2 e))
       (fst (run_op (Create (mkUserCreate n2 e)) db')) = 400
  /\ DuplicateEmail = mkHTTPException 400 "Email already exists"
  /\ get_user (id u) (snd (create_user (mkUserCreate n2 e) db')) = (Ok u, db').
Proof.
  intros H. pose proof (get_after_create _ _ _ _ H) as Hg.
  apply create_user_inv in H. destruct H as (_ & Hu & Hdb).
  assert (Hd : create_user (mkUserCreate n2 e) db' = (Raise DuplicateEmail, db')).
  { apply create_user_dup. subst db'. simpl.
    replace e with (email u) by (subst u; reflexivity).
    apply email_taken_set. }
  repeat split.
  - exact Hd.
  - simpl. unfold bind. now rewrite Hd.
  - now rewrite Hd.
Qed.

Lemma create_same_email_rejected_witness :
  create_user (mkUserCreate "B" "a@example.com")
    (snd (create_user (mkUserCreate "A" "a@example.com") init_db))
  = (Raise DuplicateEmail,
     snd (create_user (mkUserCreate "A" "a@example.com") init_db)).
Proof.
  apply (create_same_email_rejected "A" "B" "a@example.com" init_db _
           (mkUser 1 "A" "a@example.com")).
  reflexivity.
Defined.

(** ** Errors leave the state alone *)

Lemma create_user_raise p db e db' :
  create_user p db = (Raise e, db') -> e = DuplicateEmail /\ db' = db.
Proof.
  destruct (email_taken (create_email p) (users db)) eqn:Et.
  - rewrite create_user_dup by assumption. intros H. now injection H as <- <-.
  - rewrite create_user_ok by assumption. discriminate.
Qed.

Lemma update_user_raise i p db e db' :
  update_user i p db = (Raise e, db') ->
  (e = NotFound \/ e = DuplicateEmail) /\ db' = db.
Proof.
  destruct (PyDict.get i (users db)) as [u|] eqn:Hg.
  - rewrite (update_user_live _ p _ _ Hg).
    destruct (negb _ && _); [| discriminate].
    intros H. injection H as <- <-. auto.
  - rewrite update_user_missing by assumption.
    intros H. injection H as <- <-. auto.
Qed.

Lemma delete_user_raise i db e db' :
  delete_user i db = (Raise e, db') -> e = NotFound /\ db' = db.
Proof.
  rewrite delete_user_eq. destruct (PyDict.contains i (users db));
    [discriminate |]. intros H. now injection H as <- <-.
Qed.

(** C4: whenever a request is answered with an error, the error is one of
    the two domain errors and the state ([users] and [next_id]) is the
    state the request started from. *)
Theorem error_keeps_state (op : Op) (db db' : Database) (e : HTTPException) :
  run_op op db = (Raise e, db') ->
  db' = db /\ (e = NotFound \/ e = DuplicateEmail).
Proof.
  destruct op as [p | | i | i p | i]; simpl; unfold bind.
  - destruct (create_user p db) as [[u|e'] d] eqn:Hc; [discriminate |].
    intros H. injection H as -> ->.
    apply create_user_raise in Hc. tauto.
  - discriminate.
  - rewrite get_user_eq. destruct (PyDict.get i (users db)); [discriminate |].
    intros H. injection H as <- <-. auto.
  - destruct (update_user i p db) as [[u|e'] d] eqn:Hc; [discriminate |].
    intros H. injection H as -> ->.
    apply update_user_raise in Hc. tauto.
  - destruct (delete_user i db) as [[u|e'] d] eqn:Hc; [discriminate |].
    intros H. injection H as -> ->.
    apply delete_user_raise in Hc. tauto.
Qed.

Lemma error_keeps_state_witness :
  let db := exec [Create ivan; Create anna] init_db in
  let op := Update 2 (mkUserUpdate (Some "Anna K") (Some "ivan@example.com")) in
  fst (run_op op db) = Raise DuplicateEmail /\ snd (run_op op db) = db.
Proof.
  intros db op. split; [reflexivity |].
  exact (proj1 (error_keeps_state op db (snd (run_op op db)) DuplicateEmail
                  eq_refl)).
Defined.

(** ** More dictionary facts: keys without repetition *)

Section DictNoDup.
Context {V : Type}.
Implicit Types (d l : PyDict.t V) (k i : Z) (v : V).

Lemma in_get k v d : NoDup (PyDict.keys d) -> In (k, v) d -> PyDict.get k d = Some v.
Proof.
  induction d as [|[k' v'] d IH]; simpl; [tauto |].
  intros Hnd Hin. inversion Hnd as [|? ? Hk Hd]; subst.
  destruct Hin as [E | Hin].
  - injection E as -> ->. now rewrite Z.eqb_refl.
  - destruct (Z.eqb_spec k' k) as [->|Hne]; [| auto].
    exfalso. apply Hk. now apply (in_map fst) in Hin.
Qed.

Lemma get_del_same i d : NoDup (PyDict.keys d) -> PyDict.get i (PyDict.del i d) = None.
Proof.
  induction d as [|[k' v'] d IH]; simpl; [reflexivity |].
  intros Hnd. inversion Hnd as [|? ? Hk Hd]; subst.
  destruct (Z.eqb_spec k' i) as [->|Hne].
  - now apply get_none_keys.
  - simpl. destruct (Z.eqb_spec k' i); [contradiction | auto].
Qed.

Lemma get_del_none i k d :
  PyDict.get i d = None -> PyDict.get i (PyDict.del k d) = None.
Proof.
  induction d as [|[k' v'] d IH]; simpl; [reflexivity |].
  destruct (Z.eqb_spec k' i) as [->|Hne]; [discriminate |].
  intros H. destruct (Z.eqb_spec k' k); [assumption |].
  simpl. destruct (Z.eqb_spec k' i); [contradiction | auto].
Qed.

Lemma set_same i v d : PyDict.get i d = Some v -> PyDict.set i v d = d.
Proof.
  induction d as [|[k' v'] d IH]; simpl; [discriminate |].
  destruct (Z.eqb_spec k' i) as [->|Hne]; intros H.
  - now injection H as ->.
  - now rewrite IH.
Qed.

Lemma contains_existsb i d :
  PyDict.contains i d = existsb (Z.eqb i) (PyDict.keys d).
Proof.
  unfold PyDict.contains. induction d as [|[k' v'] d IH]; simpl; [reflexivity |].
  rewrite (Z.eqb_sym i k'). now destruct (k' =? i).
Qed.
End DictNoDup.

Lemma wf_keys_NoDup db : wf db -> NoDup (PyDict.keys (users db)).
Proof. intros H. apply sorted_lt_NoDup, (wf_sorted H). Qed.

Lemma ids_keys (d : PyDict.t User) :
  Forall (fun kv => id (snd kv) = fst kv) d ->
  map id (PyDict.values d) = PyDict.keys d.
Proof.
  induction 1 as [|[k u] d Hk Hd IH]; simpl; [reflexivity |].
  simpl in Hk. now rewrite Hk, IH.
Qed.

Lemma wf_ids_keys db :
  wf db -> map id (PyDict.values (users db)) = PyDict.keys (users db).
Proof. intros H. apply ids_keys, (wf_ids H). Qed.

Lemma wf_in_live db u : wf db -> In u (PyDict.values (users db)) -> live u db.
Proof.
  intros H Hin. apply in_map_iff in Hin. destruct Hin as ([k v] & E & Hin).
  simpl in E. subst v. unfold live.
  pose proof (wf_ids H) as Hi. rewrite Forall_forall in Hi.
  specialize (Hi _ Hin). simpl in Hi. rewrite Hi.
  apply in_get; [now apply wf_keys_NoDup | assumption].
Qed.

(** ** Listing *)

Lemma in_ids_from i a n : In i (ids_from a n) -> a <= i < a + Z.of_nat n.
Proof.
  revert a. induction n as [|n IH]; simpl; intros a; [tauto |].
  intros [<- | H]; [lia |]. apply IH in H. lia.
Qed.

(** A strictly increasing list drawn from [a, a+n) is what membership in
    it selects from [a; ...; a+n-1]. *)
Lemma filter_sorted_range n : forall a L,
  StronglySorted Z.lt L ->
  Forall (fun x => a <= x < a + Z.of_nat n) L ->
  filter (fun i => existsb (Z.eqb i) L) (ids_from a n) = L.
Proof.
  induction n as [|n IH]; intros a L Hs Hb.
  - destruct L as [|x L]; [reflexivity |]. inversion Hb; subst. lia.
  - cbn [ids_from filter]. destruct L as [|x L].
    + simpl. apply (IH (a + 1) []); constructor.
    + inversion Hs as [|? ? Hs' Hlt]; inversion Hb as [|? ? Hx Hb']; subst.
      rewrite Forall_forall in Hlt, Hb'.
      destruct (Z.eq_dec x a) as [->|Hne].
      * cbn [existsb]. rewrite Z.eqb_refl. cbn [orb]. f_equal.
        transitivity (filter (fun i => existsb (Z.eqb i) L) (ids_from (a + 1) n)).
        { apply filter_ext_in. intros i Hi. apply in_ids_from in Hi.
          cbn [existsb]. destruct (Z.eqb_spec i a); [lia | reflexivity]. }
        apply IH.
        -- assumption.
        -- apply Forall_forall. intros y Hy.
           specialize (Hlt _ Hy). specialize (Hb' _ Hy). lia.
      * assert (E : existsb (Z.eqb a) (x :: L) = false).
        { apply not_true_is_false. intros Hex.
          apply existsb_exists in Hex. destruct Hex as (y & Hy & Ey).
          apply Z.eqb_eq in Ey. subst y. destruct Hy as [-> | Hy];
            [lia | specialize (Hlt _ Hy); lia]. }
        rewrite E. apply IH; [assumption |].
        apply Forall_forall. intros y [<- | Hy];
          [lia | specialize (Hlt _ Hy); specialize (Hb' _ Hy); lia].
Qed.

Lemma list_after_create p db u db' :
  wf db -> create_user p db = (Ok u, db') ->
  PyDict.values (users db') = PyDict.values (users db) ++ [u].
Proof.
  intros H Hc. apply create_user_inv in Hc. destruct Hc as (_ & _ & ->).
  simpl. rewrite set_fresh by now apply wf_fresh. now rewrite values_app.
Qed.

Lemma list_users_ids ops :
  map id (PyDict.values (users (exec ops init_db)))
  = filter (fun i => PyDict.contains i (users (exec ops init_db)))
      (assigned_ids (trace ops init_db)).
Proof.
  assert (W : wf (exec ops init_db))
    by (apply reachable_wf, reachable_exec, reachable_init).
  destruct (assigned_ids_from ops init_db) as [Hids Hnext].
  change (next_id init_db) with 1 in Hids, Hnext.
  rewrite Hids, (wf_ids_keys _ W).
  rewrite (filter_ext _ _ (fun i => contains_existsb i _)).
  symmetry. apply filter_sorted_range.
  - exact (wf_sorted W).
  - rewrite <- Hnext. exact (wf_bound W).
Qed.

(** C5: [list_users] takes no argument and leaves the state as it is.  In
    the state after any run from the empty store it returns exactly the
    live records, and their ids are the ids handed out during the run, in
    the order they were handed out, with those no longer stored left out.
    In particular three creates with different emails list as the three
    records the creates returned, in that order. *)
Theorem list_users_creation_order :
  (forall db, snd (list_users db) = db)
  /\ (forall ops,
        let db := exec ops init_db in
        exists l,
          list_users db = (Ok l, db)
          /\ (forall u, In u l <-> live u db)
          /\ map id l
             = filter (fun i => PyDict.contains i (users db))
                 (assigned_ids (trace ops init_db)))
  /\ (forall a b c A B C,
        map snd (trace [Create a; Create b; Create c] init_db)
          = [Ok (RUser A); Ok (RUser B); Ok (RUser C)] ->
        fst (list_users (exec [Create a; Create b; Create c] init_db))
          = Ok [A; B; C]).
Proof.
  split; [reflexivity | split].
  - intros ops db. exists (PyDict.values (users db)).
    assert (W : wf db) by (apply reachable_wf, reachable_exec, reachable_init).
    split; [reflexivity | split].
    + intros u. split; [now apply wf_in_live | apply live_in_values].
    + apply list_users_ids.
  - intros a b c A B C H.
    assert (W0 : wf init_db) by apply wf_init.
    cbn [exec]. rewrite list_users_eq. cbn [fst]. f_equal.
    set (db1 := snd (run_op (Create a) init_db)).
    set (db2 := snd (run_op (Create b) db1)).
    set (db3 := snd (run_op (Create c) db2)).
    assert (Ha : fst (run_op (Create a) init_db) = Ok (RUser A))
      by exact (f_equal (fun l => nth 0 l (Raise NotFound)) H).
    assert (Hb : fst (run_op (Create b) db1) = Ok (RUser B))
      by exact (f_equal (fun l => nth 1 l (Raise NotFound)) H).
    assert (Hc : fst (run_op (Create c) db2) = Ok (RUser C))
      by exact (f_equal (fun l => nth 2 l (Raise NotFound)) H).
    assert (W1 : wf db1) by now apply wf_run_op.
    assert (W2 : wf db2) by now apply wf_run_op.
    assert (S : forall p db u, wf db -> fst (run_op (Create p) db) = Ok (RUser u) ->
              PyDict.values (users (snd (run_op (Create p) db)))
              = PyDict.values (users db) ++ [u]).
    { intros p db u W Hr. simpl in *. unfold bind in *.
      destruct (create_user p db) as [[u0|e] d] eqn:Hcu; [| discriminate].
      simpl in *. injection Hr as ->. eapply list_after_create; eauto. }
    unfold db3. rewrite (S _ _ _ W2 Hc). unfold db2.
    rewrite (S _ _ _ W1 Hb). unfold db1. rewrite (S _ _ _ W0 Ha).
    reflexivity.
Qed.

Lemma list_users_creation_order_witness :
  fst (list_users (exec [Create ivan; Create anna;
                         Create (mkUserCreate "Oleg" "oleg@example.com")]
                     init_db))
  = Ok [mkUser 1 "Ivan" "ivan@example.com";
        mkUser 2 "Anna" "anna@example.com";
        mkUser 3 "Oleg" "oleg@example.com"].
Proof.
  exact (proj2 (proj2 list_users_creation_order)
           ivan anna (mkUserCreate "Oleg" "oleg@example.com") _ _ _ eq_refl).
Defined.

(** ** Update *)

(** C6: an update of a stored record whose resolved email is the record's
    current email succeeds, whatever the other records hold; so it never
    raises "Email already exists".  The payload [{email: current}] is one
    such update. *)
Theorem update_same_email_ok (i : Z) (p : UserUpdate) (db : Database) (u : User) :
  PyDict.get i (users db) = Some u ->
  resolved_email p u = email u ->
  (exists db',
     update_user i p db = (Ok (mkUser i (resolved_name p u) (email u)), db'))
  /\ fst (update_user i p db) <> Raise DuplicateEmail
  /\ resolved_email (mkUserUpdate (update_name p) (Some (email u))) u = email u.
Proof.
  intros Hg He. rewrite (update_user_live _ p _ _ Hg), He.
  rewrite String.eqb_refl. cbn [negb andb].
  split; [eexists; reflexivity | split; [discriminate | reflexivity]].
Qed.

(** A store holding the same email twice, to try the update on. *)
Lemma update_same_email_ok_witness :
  let db := mkDatabase [(1, mkUser 1 "A" "a@example.com");
                        (2, mkUser 2 "B" "a@example.com")] 3 in
  fst (update_user 2 (mkUserUpdate None (Some "a@example.com")) db)
  <> Raise DuplicateEmail.
Proof.
  intros db.
  exact (proj1 (proj2 (update_same_email_ok 2
           (mkUserUpdate None (Some "a@example.com")) db
           (mkUser 2 "B" "a@example.com") eq_refl eq_refl))).
Defined.

(** C7: in a reachable state, an update of a stored record with an empty
    payload returns the stored record and leaves the whole state, hence
    that record and every other one, as it was; the status is 200. *)
Theorem update_empty_noop (i : Z) (db : Database) (u : User) :
  reachable db ->
  PyDict.get i (users db) = Some u ->
  update_user i (mkUserUpdate None None) db = (Ok u, db)
  /\ http_status (Update i (mkUserUpdate None None))
       (fst (run_op (Update i (mkUserUpdate None None)) db)) = 200.
Proof.
  intros Hr Hg. apply reachable_wf in Hr.
  assert (Hid : id u = i).
  { pose proof (wf_ids Hr) as Hi. rewrite Forall_forall in Hi.
    exact (Hi _ (get_some_in _ _ _ Hg)). }
  assert (E : update_user i (mkUserUpdate None None) db = (Ok u, db)).
  { rewrite (update_user_live _ _ _ _ Hg).
    unfold resolved_email, resolved_name. cbn [update_email update_name].
    rewrite String.eqb_refl. cbn [negb andb].
    assert (Hu : mkUser i (name u) (email u) = u)
      by (destruct u; simpl in *; now subst).
    rewrite Hu, (set_same _ _ _ Hg). now destruct db. }
  split; [exact E |].
  simpl. unfold bind. now rewrite E.
Qed.

Lemma update_empty_noop_witness :
  let db := exec [Create ivan; Create anna] init_db in
  update_user 2 (mkUserUpdate None None) db
  = (Ok (mkUser 2 "Anna" "anna@example.com"), db).
Proof.
  intros db.
  exact (proj1 (update_empty_noop 2 db (mkUser 2 "Anna" "anna@example.com")
                  (reachable_exec [Create ivan; Create anna] init_db
                     reachable_init)
                  eq_refl)).
Defined.

(** C10: in a reachable state a successful update rewrites one entry of
    the listing where it stands: the listing before is [l1 ++ u :: l2]
    with [u] the record of that id, the listing after is
    [l1 ++ u' :: l2] with [u'] the returned record, so the index of the
    record and all other entries are the same. *)
Theorem update_keeps_position
    (i : Z) (p : UserUpdate) (db db' : Database) (u' : User) :
  reachable db ->
  update_user i p db = (Ok u', db') ->
  exists l1 u l2,
    fst (list_users db) = Ok (l1 ++ u :: l2)
    /\ fst (list_users db') = Ok (l1 ++ u' :: l2)
    /\ id u = i /\ id u' = i
    /\ ~ In i (map id l1) /\ ~ In i (map id l2)
    /\ nth_error (l1 ++ u :: l2) (length l1) = Some u
    /\ nth_error (l1 ++ u' :: l2) (length l1) = Some u'.
Proof.
  intros Hr Hu. apply reachable_wf in Hr.
  destruct (PyDict.get i (users db)) as [u|] eqn:Hg.
  2: { rewrite update_user_missing in Hu by assumption. discriminate. }
  rewrite (update_user_live _ p _ _ Hg) in Hu.
  destruct (negb _ && _); [discriminate |].
  cbn zeta in Hu. injection Hu as <- <-.
  destruct (get_some_split _ _ _ Hg) as (d1 & d2 & Hd & Hn).
  pose proof (wf_ids Hr) as Hi.
  pose proof (wf_keys_NoDup _ Hr) as Hnd.
  exists (PyDict.values d1), u, (PyDict.values d2).
  rewrite !list_users_eq. cbn [fst users].
  rewrite Hd in *. rewrite set_at by assumption.
  rewrite !values_app. cbn [PyDict.values map snd].
  apply Forall_app in Hi. destruct Hi as [Hi1 Hi2].
  inversion Hi2 as [|? ? Hid Hi3]; subst. cbn [fst snd] in Hid.
  rewrite keys_app in Hnd. cbn [PyDict.keys map fst] in Hnd.
  apply NoDup_remove_2 in Hnd. rewrite in_app_iff in Hnd.
  fold (PyDict.values d1) (PyDict.values d2).
  rewrite (ids_keys _ Hi1), (ids_keys _ Hi3).
  repeat split; try reflexivity; try assumption; try tauto.
  - rewrite nth_error_app2, Nat.sub_diag by lia. reflexivity.
  - rewrite nth_error_app2, Nat.sub_diag by lia. reflexivity.
Qed.

Lemma update_keeps_position_witness :
  let db := exec [Create ivan; Create anna] init_db in
  let p := mkUserUpdate (Some "Ivan Petrov") None in
  exists l1 u l2,
    fst (list_users db) = Ok (l1 ++ u :: l2)
    /\ fst (list_users (snd (update_user 1 p db)))
       = Ok (l1 ++ mkUser 1 "Ivan Petrov" "ivan@example.com" :: l2).
Proof.
  intros db p.
  destruct (update_keeps_position 1 p db (snd (update_user 1 p db))
              (mkUser 1 "Ivan Petrov" "ivan@example.com")
              (reachable_exec [Create ivan; Create anna] init_db
                 reachable_init)
              eq_refl)
    as (l1 & u & l2 & H1 & H2 & _).
  exists l1, u, l2. split; assumption.
Defined.

(** ** Delete *)

(** An id below the counter that is not stored stays that way. *)
Lemma absent_step i op db :
  PyDict.get i (users db) = None -> i < next_id db ->
  PyDict.get i (users (snd (run_op op db))) = None
  /\ i < next_id (snd (run_op op db)).
Proof.
  intros Hg Hlt.
  destruct op as [p | | k | k p | k]; simpl; unfold bind.
  - destruct (email_taken (create_email p) (users db)) eqn:Et.
    + now rewrite create_user_dup.
    + rewrite create_user_ok by assumption. simpl.
      split; [| lia]. rewrite get_set_other by lia. assumption.
  - now split.
  - rewrite get_user_eq. now destruct (PyDict.get k (users db)).
  - destruct (PyDict.get k (users db)) as [u|] eqn:Hk.
    + rewrite (update_user_live _ p _ _ Hk).
      destruct (negb _ && _); [now split | simpl].
      split; [| assumption].
      rewrite get_set_other by congruence. assumption.
    + now rewrite update_user_missing.
  - rewrite delete_user_eq.
    destruct (PyDict.contains k (users db)); [simpl | now split].
    split; [now apply get_del_none | assumption].
Qed.

Lemma absent_exec i ops db :
  PyDict.get i (users db) = None -> i < next_id db ->
  PyDict.get i (users (exec ops db)) = None.
Proof.
  revert db. induction ops as [|op ops IH]; simpl; intros db Hg Hlt.
  - assumption.
  - destruct (absent_step i op db Hg Hlt). now apply IH.
Qed.

(** C9: in a reachable state, deleting a stored id succeeds with no value,
    after which [get_user] on that id raises "User not found", at once and
    after any further requests (no create hands the id out again);
    deleting an id that is not stored raises "User not found". *)
Theorem delete_then_get (i : Z) (db : Database) :
  reachable db ->
  (PyDict.contains i (users db) = true ->
     exists db',
       delete_user i db = (Ok tt, db')
       /\ get_user i db' = (Raise NotFound, db')
       /\ forall ops, fst (get_user i (exec ops db')) = Raise NotFound)
  /\ (PyDict.contains i (users db) = false ->
        delete_user i db = (Raise NotFound, db)).
Proof.
  intros Hr. apply reachable_wf in Hr. split; intros Hc.
  - rewrite delete_user_eq, Hc. eexists. split; [reflexivity |].
    assert (Hg : PyDict.get i (PyDict.del i (users db)) = None)
      by (apply get_del_same; now apply wf_keys_NoDup).
    assert (Hlt : i < next_id db).
    { pose proof (wf_bound Hr) as Hb. rewrite Forall_forall in Hb.
      rewrite contains_existsb in Hc. apply existsb_exists in Hc.
      destruct Hc as (k & Hk & E). apply Z.eqb_eq in E. subst k.
      specialize (Hb _ Hk). lia. }
    split.
    + rewrite get_user_eq. simpl users. now rewrite Hg.
    + intros ops. rewrite get_user_eq. cbn [fst].
      rewrite absent_exec; [reflexivity | exact Hg | exact Hlt].
  - now rewrite delete_user_eq, Hc.
Qed.

Lemma delete_then_get_witness :
  let db := exec [Create ivan; Create anna] init_db in
  (exists db',
     delete_user 1 db = (Ok tt, db')
     /\ get_user 1 db' = (Raise NotFound, db')
     /\ forall ops, fst (get_user 1 (exec ops db')) = Raise NotFound)
  /\ delete_user 999 db = (Raise NotFound, db).
Proof.
  intros db.
  pose proof (delete_then_get 1 db
                (reachable_exec [Create ivan; Create anna] init_db
                   reachable_init)) as H1.
  pose proof (delete_then_get 999 db
                (reachable_exec [Create ivan; Create anna] init_db
                   reachable_init)) as H2.
  split; [apply (proj1 H1) | apply (proj2 H2)]; reflexivity.
Defined.

(** * Further properties of the handlers *)

(** ** Ids of the stored records *)

(** X1: in every reachable state the counter is at least 1, the listing is in
    strictly increasing id order (so no id occurs twice), and every listed
    record is stored under its own id, which lies in [1, next_id). *)
Theorem stored_ids_invariant (db : Database) :
  reachable db ->
  1 <= next_id db
  /\ StronglySorted Z.lt (map id (PyDict.values (users db)))
  /\ NoDup (map id (PyDict.values (users db)))
  /\ (forall u, In u (PyDict.values (users db)) ->
        live u db /\ 1 <= id u < next_id db).
Proof.
  intros Hr. apply reachable_wf in Hr.
  rewrite (wf_ids_keys _ Hr).
  repeat split.
  - exact (wf_next Hr).
  - exact (wf_sorted Hr).
  - now apply wf_keys_NoDup.
  - now apply wf_in_live.
  - pose proof (wf_bound Hr) as Hb. rewrite Forall_forall in Hb.
    apply Hb. rewrite <- (wf_ids_keys _ Hr). now apply in_map.
  - pose proof (wf_bound Hr) as Hb. rewrite Forall_forall in Hb.
    apply Hb. rewrite <- (wf_ids_keys _ Hr). now apply in_map.
Qed.

Lemma stored_ids_invariant_witness :
  NoDup (map id (PyDict.values
                   (users (exec [Create ivan; Create anna; Delete 1;
                                 Create ivan] init_db)))).
Proof.
  apply stored_ids_invariant. apply reachable_exec, reachable_init.
Defined.

(** ** Create: when it succeeds and what it leaves alone *)



(** X3: in a reachable state a successful create uses an id that was not
    stored, puts the new record at the end of the listing, and leaves
    every other key, hence every record that was live, as it was. *)
Theorem create_frame (p : UserCreate) (db db' : Database) (u : User) :
  reachable db ->
  create_user p db = (Ok u, db') ->
  PyDict.get (id u) (users db) = None
  /\ PyDict.values (users db') = PyDict.values (users db) ++ [u]
  /\ (forall j, j <> id u ->
        PyDict.get j (users db') = PyDict.get j (users db))
  /\ (forall v, live v db -> live v db').
Proof.
  intros Hr Hc. apply reachable_wf in Hr.
  pose proof (list_after_create _ _ _ _ Hr Hc) as Hl.
  apply create_user_inv in Hc. destruct Hc as (_ & Hu & ->).
  assert (Hid : id u = next_id db) by (subst u; reflexivity).
  assert (Hn : PyDict.get (id u) (users db) = None).
  { rewrite Hid. apply get_none_keys. now apply wf_fresh. }
  repeat split.
  - exact Hn.
  - exact Hl.
  - intros j Hj. simpl users. rewrite <- Hid. now apply get_set_other.
  - intros v Hv. unfold live in *. simpl users. rewrite <- Hid.
    rewrite get_set_other; [assumption |]. congruence.
Qed.

Lemma create_frame_witness :
  let db := exec [Create ivan] init_db in
  PyDict.values (users (snd (create_user anna db)))
  = PyDict.values (users db) ++ [mkUser 2 "Anna" "anna@example.com"].
Proof.
  intros db.
  exact (proj1 (proj2 (create_frame anna db (snd (create_user anna db))
                         (mkUser 2 "Anna" "anna@example.com")
                         (reachable_exec [Create ivan] init_db reachable_init)
                         eq_refl))).
Defined.

(** ** Update: what it returns, what it refuses, what it leaves alone *)

Lemma update_user_inv i p db u' db' :
  update_user i p db = (Ok u', db') ->
  exists u,
    PyDict.get i (users db) = Some u
    /\ u' = mkUser i (resolved_name p u) (resolved_email p u)
    /\ db' = mkDatabase (PyDict.set i u' (users db)) (next_id db)
    /\ (resolved_email p u = email u
        \/ ~ In (resolved_email p u) (emails db)).
Proof.
  destruct (PyDict.get i (users db)) as [u|] eqn:Hg.
  2: { rewrite update_user_missing by assumption. discriminate. }
  rewrite (update_user_live _ p _ _ Hg).
  destruct (negb _ && _) eqn:Hc; [discriminate |].
  cbn zeta. intros H. injection H as <- <-.
  exists u. repeat split.
  apply andb_false_iff in Hc. destruct Hc as [Hc | Hc].
  - left. now apply negb_false_iff, String.eqb_eq in Hc.
  - right. now apply email_taken_not_in in Hc.
Qed.

(** X4: a successful update returns the record it stored: [get_user] on the
    same id gives it back.  The record keeps the id; its name and email
    are the payload's where given and the stored ones otherwise.  Every
    other key and the counter are as before. *)
Theorem update_then_get
    (i : Z) (p : UserUpdate) (db db' : Database) (u' : User) :
  update_user i p db = (Ok u', db') ->
  get_user i db' = (Ok u', db')
  /\ id u' = i
  /\ (exists u, PyDict.get i (users db) = Some u
        /\ name u' = match update_name p with Some n => n | None => name u end
        /\ email u' = match update_email p with Some e => e | None => email u end)
  /\ (forall j, j <> i -> PyDict.get j (users db') = PyDict.get j (users db))
  /\ next_id db' = next_id db.
Proof.
  intros H. apply update_user_inv in H.
  destruct H as (u & Hg & Hu & -> & _).
  repeat split.
  - rewrite get_user_eq. simpl users. now rewrite get_set_same.
  - now subst u'.
  - exists u. subst u'. now repeat split.
  - intros j Hj. simpl users. now apply get_set_other.
Qed.

Lemma update_then_get_witness :
  let db := exec [Create ivan; Create anna] init_db in
  let p := mkUserUpdate None (Some "anna.k@example.com") in
  get_user 2 (snd (update_user 2 p db))
  = (Ok (mkUser 2 "Anna" "anna.k@example.com"), snd (update_user 2 p db)).
Proof.
  intros db p.
  exact (proj1 (update_then_get 2 p db (snd (update_user 2 p db))
                  (mkUser 2 "Anna" "anna.k@example.com") eq_refl)).
Defined.

(** X5: in a reachable state, an update that would give one live record the
    email of another live record raises "Email already exists" and changes
    nothing, whatever name comes with it. *)
Theorem update_to_taken_email
    (db : Database) (u v : User) (n : option string) :
  reachable db ->
  live u db -> live v db -> id u <> id v ->
  update_user (id v) (mkUserUpdate n (Some (email u))) db
  = (Raise DuplicateEmail, db).
Proof.
  intros Hr Hu Hv Hne. apply reachable_wf in Hr.
  rewrite (update_user_live _ _ _ _ Hv).
  unfold resolved_email. cbn [update_email].
  assert (He : email u <> email v).
  { intros E. apply Hne. f_equal.
    apply (NoDup_map_eq email (PyDict.values (users db)));
      auto using live_in_values. exact (wf_emails Hr). }
  apply String.eqb_neq in He. rewrite He. cbn [negb andb].
  assert (Ht : email_taken (email u) (users db) = true).
  { apply email_taken_in. apply in_map. now apply live_in_values. }
  now rewrite Ht.
Qed.

Lemma update_to_taken_email_witness :
  let db := exec [Create ivan; Create anna] init_db in
  update_user 2 (mkUserUpdate (Some "X") (Some "ivan@example.com")) db
  = (Raise DuplicateEmail, db).
Proof.
  intros db.
  apply (update_to_taken_email db (mkUser 1 "Ivan" "ivan@example.com")
           (mkUser 2 "Anna" "anna@example.com") (Some "X")).
  - apply reachable_exec, reachable_init.
  - reflexivity.
  - reflexivity.
  - simpl. lia.
Defined.

(** X6: repeating a successful update changes nothing more: the same payload
    on the resulting state succeeds again, returns the same record and
    leaves that state as it is. *)
Theorem update_idempotent
    (i : Z) (p : UserUpdate) (db db' : Database) (u' : User) :
  update_user i p db = (Ok u', db') ->
  update_user i p db' = (Ok u', db').
Proof.
  intros H. apply update_user_inv in H.
  destruct H as (u & Hg & Hu & -> & _).
  assert (Hg' : PyDict.get i (PyDict.set i u' (users db)) = Some u')
    by apply get_set_same.
  rewrite (update_user_live i p (mkDatabase _ _) u' Hg').
  assert (He : resolved_email p u' = email u').
  { subst u'. unfold resolved_email. simpl. now destruct (update_email p). }
  assert (Hn : resolved_name p u' = name u').
  { subst u'. unfold resolved_name. simpl. now destruct (update_name p). }
  rewrite He, Hn, String.eqb_refl. cbn [negb andb]. cbn zeta.
  assert (Hu' : mkUser i (name u') (email u') = u') by now subst u'.
  rewrite Hu'. simpl users. simpl next_id.
  now rewrite (set_same _ _ _ Hg').
Qed.

Lemma update_idempotent_witness :
  let db := exec [Create ivan; Create anna] init_db in
  let p := mkUserUpdate (Some "Ivan Petrov") (Some "ip@example.com") in
  update_user 1 p (snd (update_user 1 p db))
  = (Ok (mkUser 1 "Ivan Petrov" "ip@example.com"), snd (update_user 1 p db)).
Proof.
  intros db p.
  exact (update_idempotent 1 p db (snd (update_user 1 p db))
           (mkUser 1 "Ivan Petrov" "ip@example.com") eq_refl).
Defined.

(** X7: in a reachable state, once an update has moved a record to a different
    email, the email it had is free: a create with it succeeds. *)
Theorem email_free_after_update
    (i : Z) (p : UserUpdate) (db db' : Database) (u u' : User) (n : string) :
  reachable db ->
  PyDict.get i (users db) = Some u ->
  update_user i p db = (Ok u', db') ->
  email u' <> email u ->
  exists db'',
    create_user (mkUserCreate n (email u)) db'
    = (Ok (mkUser (next_id db) n (email u)), db'').
Proof.
  intros Hr Hg Hup Hne. apply reachable_wf in Hr.
  apply update_user_inv in Hup.
  destruct Hup as (u0 & Hg0 & Hu & -> & _).
  rewrite Hg in Hg0. injection Hg0 as <-.
  destruct (get_some_split _ _ _ Hg) as (d1 & d2 & Hd & Hn).
  pose proof (wf_emails Hr) as He. unfold emails in He.
  rewrite Hd, values_app, map_app in He. cbn [PyDict.values map snd] in He.
  apply NoDup_remove_2 in He.
  rewrite create_user_ok; [eexists; reflexivity |].
  cbn [create_email users]. apply email_taken_not_in.
  rewrite Hd, set_at by assumption.
  rewrite values_app, map_app. cbn [PyDict.values map snd].
  rewrite in_app_iff in *. cbn [In]. intuition congruence.
Qed.

Lemma email_free_after_update_witness :
  let db := exec [Create ivan; Create anna] init_db in
  let p := mkUserUpdate None (Some "ip@example.com") in
  exists db'',
    create_user (mkUserCreate "Vanya" "ivan@example.com")
      (snd (update_user 1 p db))
    = (Ok (mkUser 3 "Vanya" "ivan@example.com"), db'').
Proof.
  intros db p.
  apply (email_free_after_update 1 p db (snd (update_user 1 p db))
           (mkUser 1 "Ivan" "ivan@example.com")
           (mkUser 1 "Ivan" "ip@example.com") "Vanya").
  - apply reachable_exec, reachable_init.
  - reflexivity.
  - reflexivity.
  - simpl. discriminate.
Defined.

(** ** Delete: what it removes and what it leaves alone *)

Lemma get_del_other {V : Type} (i j : Z) (d : PyDict.t V) :
  j <> i -> PyDict.get j (PyDict.del i d) = PyDict.get j d.
Proof.
  intros Hne. induction d as [|[k v] d IH]; simpl; [reflexivity |].
  destruct (Z.eqb_spec k i) as [->|Hk].
  - destruct (Z.eqb_spec i j); [congruence | reflexivity].
  - simpl. now rewrite IH.
Qed.

Lemma delete_user_inv i db db' :
  delete_user i db = (Ok tt, db') ->
  exists u,
    PyDict.get i (users db) = Some u
    /\ db' = mkDatabase (PyDict.del i (users db)) (next_id db).
Proof.
  rewrite delete_user_eq. unfold PyDict.contains.
  destruct (PyDict.get i (users db)) as [u|]; [| discriminate].
  intros H. injection H as <-. now exists u.
Qed.

(** X8: in a reachable state a successful delete takes exactly one record out
    of the listing, the one with that id, and keeps the others in their
    order; every other key and the counter are as before. *)
Theorem delete_frame (i : Z) (db db' : Database) :
  reachable db ->
  delete_user i db = (Ok tt, db') ->
  (exists l1 u l2,
     PyDict.values (users db) = l1 ++ u :: l2
     /\ PyDict.values (users db') = l1 ++ l2
     /\ id u = i
     /\ ~ In i (map id (l1 ++ l2)))
  /\ (forall j, j <> i -> PyDict.get j (users db') = PyDict.get j (users db))
  /\ next_id db' = next_id db.
Proof.
  intros Hr Hd. apply reachable_wf in Hr.
  apply delete_user_inv in Hd. destruct Hd as (u & Hg & ->).
  repeat split; [| intros j Hj; simpl users; now apply get_del_other].
  destruct (get_some_split _ _ _ Hg) as (d1 & d2 & Hd & Hn).
  pose proof (wf_ids Hr) as Hi. pose proof (wf_keys_NoDup _ Hr) as Hnd.
  exists (PyDict.values d1), u, (PyDict.values d2).
  simpl users. rewrite Hd in *. rewrite del_at by assumption.
  rewrite !values_app. cbn [PyDict.values map snd].
  apply Forall_app in Hi. destruct Hi as [Hi1 Hi2].
  inversion Hi2 as [|? ? Hid Hi3]; subst. cbn [fst snd] in Hid.
  rewrite keys_app in Hnd. cbn [PyDict.keys map fst] in Hnd.
  apply NoDup_remove_2 in Hnd.
  fold (PyDict.values d1) (PyDict.values d2).
  rewrite map_app, (ids_keys _ Hi1), (ids_keys _ Hi3).
  repeat split; assumption.
Qed.

Lemma delete_frame_witness :
  let db := exec [Create ivan; Create anna] init_db in
  next_id (snd (delete_user 1 db)) = next_id db.
Proof.
  intros db.
  exact (proj2 (proj2 (delete_frame 1 db (snd (delete_user 1 db))
                         (reachable_exec [Create ivan; Create anna] init_db
                            reachable_init)
                         eq_refl))).
Defined.

(** X9: in a reachable state, deleting a live record frees its email but not
    its id: a create with that email succeeds right after the delete and
    gets the counter's value, which is not the deleted id. *)
Theorem email_free_after_delete (db db' : Database) (u : User) (n : string) :
  reachable db ->
  live u db ->
  delete_user (id u) db = (Ok tt, db') ->
  (exists db'',
     create_user (mkUserCreate n (email u)) db'
     = (Ok (mkUser (next_id db) n (email u)), db''))
  /\ id u < next_id db.
Proof.
  intros Hr Hu Hd. apply reachable_wf in Hr.
  apply delete_user_inv in Hd. destruct Hd as (u0 & Hg & ->).
  unfold live in Hu. rewrite Hu in Hg. injection Hg as <-.
  destruct (get_some_split _ _ _ Hu) as (d1 & d2 & Hd & Hn).
  split.
  - pose proof (wf_emails Hr) as He. unfold emails in He.
    rewrite Hd, values_app, map_app in He. cbn [PyDict.values map snd] in He.
    apply NoDup_remove_2 in He.
    rewrite create_user_ok; [eexists; reflexivity |].
    cbn [create_email users]. apply email_taken_not_in.
    rewrite Hd, del_at by assumption.
    now rewrite values_app, map_app.
  - pose proof (wf_bound Hr) as Hb. rewrite Forall_forall in Hb.
    assert (Hin : In (id u) (PyDict.keys (users db))).
    { apply get_some_in in Hu. now apply (in_map fst) in Hu. }
    specialize (Hb _ Hin). lia.
Qed.

Lemma email_free_after_delete_witness :
  let db := exec [Create ivan; Create anna] init_db in
  exists db'',
    create_user (mkUserCreate "Vanya" "ivan@example.com")
      (snd (delete_user 1 db))
    = (Ok (mkUser 3 "Vanya" "ivan@example.com"), db'').
Proof.
  intros db.
  apply (email_free_after_delete db (snd (delete_user 1 db))
           (mkUser 1 "Ivan" "ivan@example.com") "Vanya").
  - apply reachable_exec, reachable_init.
  - reflexivity.
  - reflexivity.
Defined.

(** X10: in a reachable state, once an id has been deleted every later update
    or delete of it raises "User not found" and changes nothing, whatever
    requests came in between. *)
Theorem deleted_id_stays_gone
    (i : Z) (db db' : Database) (ops : list Op) (p : UserUpdate) :
  reachable db ->
  delete_user i db = (Ok tt, db') ->
  update_user i p (exec ops db') = (Raise NotFound, exec ops db')
  /\ delete_user i (exec ops db') = (Raise NotFound, exec ops db').
Proof.
  intros Hr Hd. apply reachable_wf in Hr.
  apply delete_user_inv in Hd. destruct Hd as (u & Hg & ->).
  assert (Hn : PyDict.get i (users (exec ops
                 (mkDatabase (PyDict.del i (users db)) (next_id db)))) = None).
  { apply absent_exec; simpl.
    - apply get_del_same. now apply wf_keys_NoDup.
    - pose proof (wf_bound Hr) as Hb. rewrite Forall_forall in Hb.
      apply get_some_in in Hg. apply (in_map fst) in Hg.
      specialize (Hb _ Hg). simpl in Hb. lia. }
  split.
  - now apply update_user_missing.
  - rewrite delete_user_eq. unfold PyDict.contains. now rewrite Hn.
Qed.

Lemma deleted_id_stays_gone_witness :
  let db := exec [Create ivan; Create anna] init_db in
  let db' := exec [Create ivan; Update 2 (mkUserUpdate (Some "A") None)]
               (snd (delete_user 1 db)) in
  delete_user 1 db' = (Raise NotFound, db').
Proof.
  intros db db'.
  exact (proj2 (deleted_id_stays_gone 1 db (snd (delete_user 1 db))
                  [Create ivan; Update 2 (mkUserUpdate (Some "A") None)]
                  (mkUserUpdate None None)
                  (reachable_exec [Create ivan; Create anna] init_db
                     reachable_init)
                  eq_refl)).
Defined.

(** ** "User not found" *)

(** X11: for an id that is not stored, [get_user], [update_user] with any
    payload (also one whose email is taken) and [delete_user] all raise
    "User not found" and change nothing; for an id that is stored none of
    the three raises it. *)
Theorem not_found_iff_missing (i : Z) (db : Database) :
  (PyDict.contains i (users db) = false ->
     get_user i db = (Raise NotFound, db)
     /\ (forall p, update_user i p db = (Raise NotFound, db))
     /\ delete_user i db = (Raise NotFound, db))
  /\ (PyDict.contains i (users db) = true ->
        fst (get_user i db) <> Raise NotFound
        /\ (forall p, fst (update_user i p db) <> Raise NotFound)
        /\ fst (delete_user i db) <> Raise NotFound).
Proof.
  unfold PyDict.contains. rewrite get_user_eq, delete_user_eq.
  unfold PyDict.contains.
  destruct (PyDict.get i (users db)) as [u|] eqn:Hg; split; intros Hc;
    try discriminate; repeat split; try discriminate.
  - intros p. rewrite (update_user_live _ p _ _ Hg).
    destruct (negb _ && _); discriminate.
  - intros p. now apply update_user_missing.
Qed.

Lemma not_found_iff_missing_witness :
  update_user 999 (mkUserUpdate (Some "X") (Some "ivan@example.com"))
    (exec [Create ivan] init_db)
  = (Raise NotFound, exec [Create ivan] init_db).
Proof.
  apply (proj1 (not_found_iff_missing 999 (exec [Create ivan] init_db))).
  reflexivity.
Defined.

(** ** Status codes and the path check *)


(** X13: in a reachable state the path check [ge=1] turns away only requests
    the handler would have answered "User not found" without touching the
    state; the id of a live record always passes it, and GET on it is
    answered 200. *)
Theorem path_check_hides_no_record (db : Database) :
  reachable db ->
  (forall op, path_ok op = false ->
     run_op op db = (Raise NotFound, db) /\ serve op db = (422, db))
  /\ (forall u, live u db ->
        path_ok (Get (id u)) = true /\ serve (Get (id u)) db = (200, db)).
Proof.
  intros Hr. apply reachable_wf in Hr.
  assert (Hlow : forall i, (1 <=? i) = false -> PyDict.get i (users db) = None).
  { intros i Hi. apply Z.leb_gt in Hi. apply get_none_keys. intros Hin.
    pose proof (wf_bound Hr) as Hb. rewrite Forall_forall in Hb.
    specialize (Hb _ Hin). lia. }
  split.
  - intros op Hp. unfold serve. rewrite Hp. split; [| reflexivity].
    destruct op as [p | | i | i p | i]; simpl in Hp; try discriminate;
      apply Hlow in Hp; simpl; unfold bind.
    + now rewrite get_user_eq, Hp.
    + now rewrite update_user_missing.
    + rewrite delete_user_eq. unfold PyDict.contains. now rewrite Hp.
  - intros u Hu.
    assert (Hp : path_ok (Get (id u)) = true).
    { simpl. apply Z.leb_le. pose proof (wf_bound Hr) as Hb.
      rewrite Forall_forall in Hb. unfold live in Hu.
      apply get_some_in in Hu. apply (in_map fst) in Hu.
      specialize (Hb _ Hu). simpl in Hb. lia. }
    split; [exact Hp |]. unfold serve. rewrite Hp.
    simpl run_op. unfold bind. rewrite get_user_eq.
    unfold live in Hu. now rewrite Hu.
Qed.

Lemma path_check_hides_no_record_witness :
  let db := exec [Create ivan; Create anna] init_db in
  run_op (Delete 0) db = (Raise NotFound, db)
  /\ serve (Get 2) db = (200, db).
Proof.
  intros db.
  pose proof (path_check_hides_no_record db
                (reachable_exec [Create ivan; Create anna] init_db
                   reachable_init)) as [H1 H2].
  split.
  - exact (proj1 (H1 (Delete 0) eq_refl)).
  - exact (proj2 (H2 (mkUser 2 "Anna" "anna@example.com") eq_refl)).
Defined.

(** ** Runs: counting records, and dropping the reads *)

Lemma length_step op db :
  wf db ->
  (length (users (snd (run_op op db)))
   + (if deleted (op, fst (run_op op db)) then 1 else 0)
   = length (users db)
     + match assigned_id (op, fst (run_op op db)) with
       | Some _ => 1
       | None => 0
       end)%nat.
Proof.
  intros W. destruct op as [p | | i | i p | i]; simpl; unfold bind.
  - destruct (email_taken (create_email p) (users db)) eqn:Et.
    + rewrite create_user_dup by assumption. simpl. lia.
    + rewrite create_user_ok by assumption. simpl.
      rewrite set_fresh by now apply wf_fresh. rewrite length_app. simpl. lia.
  - simpl. lia.
  - rewrite get_user_eq. destruct (PyDict.get i (users db)); simpl; lia.
  - destruct (PyDict.get i (users db)) as [u|] eqn:Hg.
    + rewrite (update_user_live _ p _ _ Hg).
      destruct (negb _ && _); simpl; [lia |].
      destruct (get_some_split _ _ _ Hg) as (d1 & d2 & Hd & Hn).
      rewrite Hd, set_at by assumption. rewrite !length_app. simpl. lia.
    + rewrite update_user_missing by assumption. simpl. lia.
  - rewrite delete_user_eq. unfold PyDict.contains.
    destruct (PyDict.get i (users db)) as [u|] eqn:Hg; simpl; [| lia].
    destruct (get_some_split _ _ _ Hg) as (d1 & d2 & Hd & Hn).
    rewrite Hd, del_at by assumption. rewrite !length_app. simpl. lia.
Qed.

Lemma length_run ops db :
  wf db ->
  (length (users (exec ops db)) + length (filter deleted (trace ops db))
   = length (users db) + length (assigned_ids (trace ops db)))%nat.
Proof.
  revert db. induction ops as [|op ops IH]; intros db W.
  - simpl. lia.
  - cbn [exec trace filter assigned_ids].
    pose proof (length_step op db W) as Hs.
    pose proof (IH _ (wf_run_op op db W)) as Hr.
    destruct (deleted (op, fst (run_op op db)));
      destruct (assigned_id (op, fst (run_op op db))); simpl in *; lia.
Qed.

(** X14: after any run from the empty store the listing holds as many records
    as creates succeeded minus deletes succeeded, and the counter is one
    more than the number of successful creates. *)
Theorem listing_length (ops : list Op) :
  (length (PyDict.values (users (exec ops init_db)))
   + length (filter deleted (trace ops init_db))
   = length (assigned_ids (trace ops init_db)))%nat
  /\ next_id (exec ops init_db)
     = 1 + Z.of_nat (length (assigned_ids (trace ops init_db))).
Proof.
  split.
  - unfold PyDict.values. rewrite length_map.
    now rewrite (length_run ops init_db wf_init).
  - now destruct (assigned_ids_from ops init_db) as [_ ->].
Qed.

Lemma read_keeps_state op db : is_read op = true -> snd (run_op op db) = db.
Proof.
  destruct op as [p | | i | i p | i]; simpl; try discriminate; intros _.
  - reflexivity.
  - unfold bind. rewrite get_user_eq. now destruct (PyDict.get i (users db)).
Qed.

(** X15: GET requests do not matter to anything else: taking the reads out of a
    run leaves the final state and the answers to all other requests the
    same. *)
Theorem reads_do_not_matter (ops : list Op) (db : Database) :
  exec ops db = exec (filter (fun op => negb (is_read op)) ops) db
  /\ filter (fun x => negb (is_read (fst x))) (trace ops db)
     = trace (filter (fun op => negb (is_read op)) ops) db.
Proof.
  revert db. induction ops as [|op ops IH]; intros db; [now split |].
  cbn [exec trace filter fst].
  destruct (is_read op) eqn:Hrd; cbn [negb].
  - rewrite (read_keeps_state op db Hrd). apply IH.
  - cbn [exec trace]. destruct (IH (snd (run_op op db))) as [IH1 IH2].
    split; [exact IH1 | now rewrite IH2].
Qed.

Lemma raise_keeps_state op db e :
  fst (run_op op db) = Raise e -> snd (run_op op db) = db.
Proof.
  destruct op as [p | | i | i p | i]; simpl; unfold bind.
  - destruct (create_user p db) as [[u|e'] d] eqn:Hc; [discriminate |].
    intros _. now apply create_user_raise in Hc.
  - discriminate.
  - rewrite get_user_eq. now destruct (PyDict.get i (users db)).
  - destruct (update_user i p db) as [[u|e'] d] eqn:Hc; [discriminate |].
    intros _. now apply update_user_raise in Hc.
  - destruct (delete_user i db) as [[u|e'] d] eqn:Hc; [discriminate |].
    intros _. now apply delete_user_raise in Hc.
Qed.

(** X16: rejected requests leave no trace: running only the requests of a run
    that were answered without error ends in the same state and gives
    those requests the same answers. *)
Theorem rejected_requests_do_not_matter (ops : list Op) (db : Database) :
  let kept := map fst (filter answered_ok (trace ops db)) in
  exec kept db = exec ops db
  /\ trace kept db = filter answered_ok (trace ops db).
Proof.
  cbv zeta. revert db.
  induction ops as [|op ops IH]; intros db; [now split |].
  cbn [trace filter].
  destruct (fst (run_op op db)) as [r|e] eqn:Hr.
  - change (answered_ok (op, Ok r)) with true. cbv iota.
    cbn [map fst exec trace]. rewrite Hr.
    destruct (IH (snd (run_op op db))) as [IH1 IH2].
    split; [exact IH1 | now rewrite IH2].
  - change (answered_ok (op, @Raise Reply e)) with false. cbv iota.
    cbn [exec]. rewrite (raise_keeps_state op db e Hr). apply IH.
Qed.

Example rejected_requests_dropped :
  map fst (filter answered_ok
             (trace [Create ivan; Create ivan; Get 7; Create anna; Delete 9]
                init_db))
  = [Create ivan; Create anna].
Proof. reflexivity. Qed.
